(** * pdb2sql/transform.py: rigid-body transformations of atomic coordinates

    A shallow embedding of [src/pdb2sql/transform.py] and the properties of
    its rotation sampler, its rotation kernels and its read-transform-write
    functions.

    Conventions of the embedding.
    - Floating-point numbers are idealised as real numbers ([R]); numpy's
      [cos], [sin], [arccos] and [pi] are the real functions.
    - A coordinate array is the array that [np.array] builds from a list of
      coordinate rows: the list [p1; ...; pn] with [n >= 1] stands for the
      array of shape (n,3), and the empty list stands for [np.array([])],
      whose shape is (0,).  The operations of numpy that reject the shape
      (0,) against a 3-vector or a 3x3 matrix raise [ValueError] here.
    - Python exceptions are the [Raise] results of an error monad; the
      mutable database object and numpy's global random state are threaded
      through a state monad.  A raised exception keeps the state reached so
      far.  The argument [db] of the functions of the module is the
      database of the world. *)

From Stdlib Require Import String ZArith Bool Reals Lra List.
Import ListNotations.
Local Open Scope R_scope.

(** ** Exceptions and results *)

(** The exceptions the module can raise: an unbound name and a shape
    mismatch in numpy.  [EmptySelection] is the dedicated error of the
    specification's error taxonomy; no statement of the module raises it. *)
Inductive exn : Type :=
| NameError
| ValueError
| EmptySelection.

Inductive result (A : Type) : Type :=
| Ok (a : A)
| Raise (e : exn).

Arguments Ok {A} a.
Arguments Raise {A} e.

Definition rbind {A B : Type} (r : result A) (k : A -> result B) : result B :=
  match r with
  | Ok a => k a
  | Raise e => Raise e
  end.

Declare Scope result_scope.
Delimit Scope result_scope with result.
Notation "x <- r ;; k" := (rbind r (fun x => k))
  (at level 61, r at next level, right associativity) : result_scope.

(** ** Vectors, matrices and the numpy operations the module uses *)

Definition vec3 : Type := (R * R * R)%type.

(** A 3x3 matrix, as numpy writes it: a triple of rows. *)
Definition mat3 : Type := (vec3 * vec3 * vec3)%type.

(** An array built by [np.array] from coordinate rows. *)
Definition ndarray : Type := list vec3.

(** The transposed array, of shape (3,n): its three rows. *)
Definition cols : Type := (list R * list R * list R)%type.

Definition vx (p : vec3) : R := fst (fst p).
Definition vy (p : vec3) : R := snd (fst p).
Definition vz (p : vec3) : R := snd p.

Definition vadd (p q : vec3) : vec3 := (vx p + vx q, vy p + vy q, vz p + vz q).
Definition vsub (p q : vec3) : vec3 := (vx p - vx q, vy p - vy q, vz p - vz q).

Definition Rsum (l : list R) : R := fold_right Rplus 0 l.

Module np.

(** [a.T] of an (n,3) array. *)
Definition T (a : ndarray) : cols := (map vx a, map vy a, map vz a).

Fixpoint zip3 (c0 c1 c2 : list R) : ndarray :=
  match c0, c1, c2 with
  | x :: c0', y :: c1', z :: c2' => (x, y, z) :: zip3 c0' c1' c2'
  | _, _, _ => []
  end.

(** [c.T] of a (3,n) array. *)
Definition T' (c : cols) : ndarray :=
  let '(c0, c1, c2) := c in zip3 c0 c1 c2.

(** [np.mean(a, 0)]: the mean of each column.  For the empty array numpy
    returns nan with a RuntimeWarning and raises nothing; the value
    computed here for it is never used, because the matrix product that
    follows rejects the array. *)
Definition mean0 (a : ndarray) : vec3 :=
  let n := INR (length a) in
  let '(c0, c1, c2) := T a in
  (Rsum c0 / n, Rsum c1 / n, Rsum c2 / n).

Definition ravel (a : ndarray) : list R :=
  flat_map (fun p => [vx p; vy p; vz p]) a.

(** [np.mean(a)] without an axis: the mean of all the entries. *)
Definition mean (a : ndarray) : R :=
  Rsum (ravel a) / INR (length (ravel a)).

(** [a - c] and [a + c] for a 3-vector [c], broadcast over the rows.  On
    the empty array both are left to the matrix product or the in-place
    sum, which raise the [ValueError] that numpy raises for it. *)
Definition sub (a : ndarray) (c : vec3) : ndarray := map (fun p => vsub p c) a.
Definition add (a : ndarray) (c : vec3) : ndarray := map (fun p => vadd p c) a.

(** [a - s] and [a + s] for a scalar [s], broadcast over the entries. *)
Definition sub_scalar (a : ndarray) (s : R) : ndarray := sub a (s, s, s).
Definition add_scalar (a : ndarray) (s : R) : ndarray := add a (s, s, s).

(** [a += v] for a 3-vector [v]: the shapes (0,) and (3,) do not
    broadcast. *)
Definition iadd (a : ndarray) (v : vec3) : result ndarray :=
  match a with
  | [] => Raise ValueError
  | _ :: _ => Ok (add a v)
  end.

Fixpoint lincomb (r : vec3) (c0 c1 c2 : list R) : list R :=
  match c0, c1, c2 with
  | x :: c0', y :: c1', z :: c2' =>
      (vx r * x + vy r * y + vz r * z) :: lincomb r c0' c1' c2'
  | _, _, _ => []
  end.

(** [np.dot(m, c)] of a 3x3 matrix and a (3,n) array.  The transpose of
    the array of shape (0,) has shape (0,), whose length is not 3. *)
Definition dot (m : mat3) (c : cols) : result cols :=
  let '(c0, c1, c2) := c in
  let '(r0, r1, r2) := m in
  match c0 with
  | [] => Raise ValueError
  | _ :: _ => Ok (lincomb r0 c0 c1 c2, lincomb r1 c0 c1 c2, lincomb r2 c0 c1 c2)
  end.

Definition col (m : mat3) (j : vec3 -> R) : vec3 :=
  let '(r0, r1, r2) := m in (j r0, j r1, j r2).

Definition vdot (p q : vec3) : R := vx p * vx q + vy p * vy q + vz p * vz q.

(** [np.dot(a, b)] of two 3x3 matrices. *)
Definition dot33 (a b : mat3) : mat3 :=
  let '(r0, r1, r2) := a in
  let row r := (vdot r (col b vx), vdot r (col b vy), vdot r (col b vz)) in
  (row r0, row r1, row r2).

End np.

(** ** The rotation kernels *)

(** [rot_xyz_around_axis(xyz, axis, angle, center=None)] *)
Definition rot_xyz_around_axis (xyz : ndarray) (axis : vec3) (angle : R)
    (center : option vec3) : result ndarray :=
  (* check center *)
  let center := match center with
                | None => np.mean0 xyz
                | Some c => c
                end in
  (* get the data *)
  let ct := cos angle in
  let st := sin angle in
  let '(ux, uy, uz) := axis in
  (* definition of the rotation matrix *)
  let rot_mat : mat3 :=
    ((ct + ux ^ 2 * (1 - ct),
      ux * uy * (1 - ct) - uz * st,
      ux * uz * (1 - ct) + uy * st),
     (uy * ux * (1 - ct) + uz * st,
      ct + uy ^ 2 * (1 - ct),
      uy * uz * (1 - ct) - ux * st),
     (uz * ux * (1 - ct) - uy * st,
      uz * uy * (1 - ct) + ux * st,
      ct + uz ^ 2 * (1 - ct))) in
  (* apply the rotation *)
  (r <- np.dot rot_mat (np.T (np.sub xyz center)) ;;
   Ok (np.add (np.T' r) center))%result.

(** [_rotation_euler(xyz, alpha, beta, gamma)] *)
Definition _rotation_euler (xyz : ndarray) (alpha beta gamma : R) : result ndarray :=
  (* precompute the trig *)
  let ca := cos alpha in let sa := sin alpha in
  let cb := cos beta in let sb := sin beta in
  let cg := cos gamma in let sg := sin gamma in
  (* get the center of the molecule *)
  let xyz0 := np.mean0 xyz in
  (* rotation matrices *)
  let rx : mat3 := ((1, 0, 0), (0, ca, - sa), (0, sa, ca)) in
  let ry : mat3 := ((cb, 0, sb), (0, 1, 0), (- sb, 0, cb)) in
  let rz : mat3 := ((cg, - sg, 0), (sg, cg, 0), (0, 0, 1)) in
  (* get rotation matrix *)
  let rot_mat := np.dot33 rz (np.dot33 ry rx) in
  (* apply the rotation *)
  (r <- np.dot rot_mat (np.T (np.sub xyz xyz0)) ;;
   Ok (np.add (np.T' r) xyz0))%result.

(** [rotation_matrix(xyz, rot_mat, center=True)] *)
Definition rotation_matrix (xyz : ndarray) (rot_mat : mat3) (center : bool)
    : result ndarray :=
  if center then
    let xyz0 := np.mean xyz in
    (r <- np.dot rot_mat (np.T (np.sub_scalar xyz xyz0)) ;;
     Ok (np.add_scalar (np.T' r) xyz0))%result
  else
    (r <- np.dot rot_mat (np.T xyz) ;;
     Ok (np.T' r))%result.

(** ** The world: the database object and numpy's global random state *)

(** numpy's global generator: its state, [np.random.seed], which rejects
    some integers (numpy raises [ValueError] for a seed outside the range it
    supports), and [np.random.rand], one draw from the half-open unit
    interval.  The generator is external to the module. *)
Record generator : Type := {
  gen_state : Type;
  gen_seed : Z -> option gen_state;
  gen_rand : gen_state -> R * gen_state
}.

Section Engine.

(** The columns of an atom row other than its coordinates. *)
Variable attr : Type.
Variable G : generator.

Record atom : Type := { attrs : attr; pos : vec3 }.

Definition database : Type := list atom.

(** The keyword arguments that select atoms: an opaque filter on rows. *)
Definition selection : Type := attr -> bool.

Record world : Type := { store : database; rng : gen_state G }.

Definition M (A : Type) : Type := world -> result A * world.

Definition ret {A : Type} (a : A) : M A := fun w => (Ok a, w).

Definition raise {A : Type} (e : exn) : M A := fun w => (Raise e, w).

Definition bind {A B : Type} (m : M A) (k : A -> M B) : M B :=
  fun w =>
    match m w with
    | (Ok a, w') => k a w'
    | (Raise e, w') => (Raise e, w')
    end.

Definition lift {A : Type} (r : result A) : M A := fun w => (r, w).

Notation "x <- m ;; k" := (bind m (fun x => k))
  (at level 61, m at next level, right associativity).
Notation "m ;; k" := (bind m (fun _ => k))
  (at level 61, right associativity).

(** Modelled from the spec: the accessor's read, [db.get('x,y,z', **kwargs)]
    of pdb2sqlcore, which is not among the sources.  It returns the
    coordinates of the rows that match the selection, in row order, and the
    empty sequence when no row matches. *)
Definition db_get (d : database) (kwargs : selection) : list vec3 :=
  map pos (filter (fun a => kwargs (attrs a)) d).

(** Modelled from the spec: the accessor's write,
    [db.update('x,y,z', xyz, **kwargs)] of pdb2sqlcore, which is not among
    the sources.  Row [i] of the selection receives row [i] of [xyz]; rows
    outside the selection are kept; a length that differs from the number
    of selected rows is a contract violation ([None]). *)
Fixpoint db_put (d : database) (kwargs : selection) (xyz : list vec3)
    : option database :=
  match d with
  | [] => match xyz with
          | [] => Some []
          | _ :: _ => None
          end
  | a :: d' =>
      if kwargs (attrs a) then
        match xyz with
        | [] => None
        | p :: xyz' =>
            option_map (cons {| attrs := attrs a; pos := p |}) (db_put d' kwargs xyz')
        end
      else option_map (cons a) (db_put d' kwargs xyz)
  end.

(** [_get_xyz(db, **kwargs)] *)
Definition _get_xyz (kwargs : selection) : M ndarray :=
  fun w => (Ok (db_get (store w) kwargs), w).

(** [_update(db, xyz, **kwargs)] *)
Definition _update (xyz : ndarray) (kwargs : selection) : M unit :=
  fun w =>
    match db_put (store w) kwargs xyz with
    | Some d' => (Ok tt, {| store := d'; rng := rng w |})
    | None => (Raise ValueError, w)
    end.

(** [np.random.seed(seed)] *)
Definition np_random_seed (seed : Z) : M unit :=
  fun w =>
    match gen_seed G seed with
    | Some g => (Ok tt, {| store := store w; rng := g |})
    | None => (Raise ValueError, w)
    end.

(** [np.random.rand()] *)
Definition np_random_rand : M R :=
  fun w =>
    let '(u, g) := gen_rand G (rng w) in
    (Ok u, {| store := store w; rng := g |}).

(** Reading a name that no enclosing function binds: the module's global
    bindings of the expected kind are searched, and an unbound name raises
    [NameError]. *)
Definition load_global {A : Type} (name : string) (globals : list (string * A))
    : M A :=
  match find (fun b => String.eqb name (fst b)) globals with
  | Some b => ret (snd b)
  | None => raise NameError
  end.

(** The module binds no float at its top level: its global names are the
    imports [np], [time] and [pdb2sql] and the functions it defines. *)
Definition module_floats : list (string * R) := [].

(** The functions of the module that take an array and a matrix. *)
Definition module_matrix_kernels : list (string * (ndarray -> mat3 -> result ndarray)) :=
  [("rotation_matrix"%string, fun xyz rot_mat => rotation_matrix xyz rot_mat true)].

(** ** The sampler and the read-transform-write functions *)

(** [get_rot_axis_angle(seed=None)] *)
Definition get_rot_axis_angle (seed : option Z) : M (vec3 * R) :=
  match seed with
  | Some s => np_random_seed s
  | None => ret tt
  end ;;
  u1 <- np_random_rand ;;
  u2 <- np_random_rand ;;
  let teta := acos (2 * u1 - 1) in
  let phi := 2 * PI * u2 in
  let axis := (sin teta * cos phi, sin teta * sin phi, cos teta) in
  angle <- load_global "angle" module_floats ;;
  ret (axis, angle).

(** [translation(db, vect, **kwargs)] *)
Definition translation (vect : vec3) (kwargs : selection) : M unit :=
  xyz <- _get_xyz kwargs ;;
  xyz <- lift (np.iadd xyz vect) ;;
  _update xyz kwargs.

(** [rot_axis(db, axis, angle, **kwargs)] *)
Definition rot_axis (axis : vec3) (angle : R) (kwargs : selection) : M unit :=
  xyz <- _get_xyz kwargs ;;
  xyz <- lift (rot_xyz_around_axis xyz axis angle None) ;;
  _update xyz kwargs.

(** [rot_euler(db, alpha, beta, gamma, **kwargs)] *)
Definition rot_euler (alpha beta gamma : R) (kwargs : selection) : M unit :=
  xyz <- _get_xyz kwargs ;;
  xyz <- lift (_rotation_euler xyz alpha beta gamma) ;;
  _update xyz kwargs.

(** [rot_mat(db, mat, **kwargs)] *)
Definition rot_mat (mat : mat3) (kwargs : selection) : M unit :=
  xyz <- _get_xyz kwargs ;;
  _rotation_matrix <- load_global "_rotation_matrix" module_matrix_kernels ;;
  xyz <- lift (_rotation_matrix xyz mat) ;;
  _update xyz kwargs ;;
  (* define the rotation angle *)
  u <- np_random_rand ;;
  let angle := 2 * PI * u in
  ret tt.

End Engine.

Arguments attrs {attr} a.
Arguments pos {attr} a.
Arguments Build_atom {attr} attrs pos.
Arguments store {attr G} w.
Arguments rng {attr G} w.
Arguments Build_world {attr G} store rng.
Arguments db_get {attr} d kwargs.
Arguments db_put {attr} d kwargs xyz.
Arguments _get_xyz {attr G} kwargs w.
Arguments _update {attr G} xyz kwargs w.
Arguments get_rot_axis_angle {attr G} seed w.
Arguments translation {attr G} vect kwargs w.
Arguments rot_axis {attr G} axis angle kwargs w.
Arguments rot_euler {attr G} alpha beta gamma kwargs w.
Arguments rot_mat {attr G} mat kwargs w.

(** ** The vocabulary of the specification *)

(** The centroid of a point set: the arithmetic mean of each coordinate. *)
Definition centroid (P : list vec3) : vec3 :=
  (Rsum (map vx P) / INR (length P),
   Rsum (map vy P) / INR (length P),
   Rsum (map vz P) / INR (length P)).

(** The product of a matrix and a column vector. *)
Definition mat_vec (m : mat3) (v : vec3) : vec3 :=
  let '(r0, r1, r2) := m in (np.vdot r0 v, np.vdot r1 v, np.vdot r2 v).

(** The product of two matrices, column by column. *)
Definition mat_mul (a b : mat3) : mat3 :=
  let c0 := mat_vec a (np.col b vx) in
  let c1 := mat_vec a (np.col b vy) in
  let c2 := mat_vec a (np.col b vz) in
  ((vx c0, vx c1, vx c2), (vy c0, vy c1, vy c2), (vz c0, vz c1, vz c2)).

(** [R . (p - center) + center] *)
Definition rotate_about (m : mat3) (center p : vec3) : vec3 :=
  vadd (mat_vec m (vsub p center)) center.

(** Rodrigues' formula, as the specification writes it. *)
Definition rodrigues (axis : vec3) (angle : R) : mat3 :=
  let c := cos angle in
  let s := sin angle in
  let ux := vx axis in
  let uy := vy axis in
  let uz := vz axis in
  ((c + ux * ux * (1 - c), ux * uy * (1 - c) - uz * s, ux * uz * (1 - c) + uy * s),
   (uy * ux * (1 - c) + uz * s, c + uy * uy * (1 - c), uy * uz * (1 - c) - ux * s),
   (uz * ux * (1 - c) - uy * s, uz * uy * (1 - c) + ux * s, c + uz * uz * (1 - c))).

(** The elemental rotations about the coordinate axes. *)
Definition Rx (alpha : R) : mat3 :=
  ((1, 0, 0), (0, cos alpha, - sin alpha), (0, sin alpha, cos alpha)).
Definition Ry (beta : R) : mat3 :=
  ((cos beta, 0, sin beta), (0, 1, 0), (- sin beta, 0, cos beta)).
Definition Rz (gamma : R) : mat3 :=
  ((cos gamma, - sin gamma, 0), (sin gamma, cos gamma, 0), (0, 0, 1)).

Definition norm2 (v : vec3) : R := vx v * vx v + vy v * vy v + vz v * vz v.

(** The Euclidean distance of two points. *)
Definition dist (p q : vec3) : R := sqrt (norm2 (vsub p q)).

Definition unit_axis (u : vec3) : Prop := norm2 u = 1.

(** A matrix that preserves the norm of every vector. *)
Definition isometry (m : mat3) : Prop :=
  forall v, norm2 (mat_vec m v) = norm2 v.

(** The state in which a function leaves the world [w] after it has read
    the selection and written back the rows [xyz']: as many rows as were
    read, held in order by the selected rows; no row added, removed or
    moved; the rows outside the selection and the generator untouched. *)
Definition committed {attr : Type} {G : generator} (w : world attr G)
    (kwargs : selection attr) (xyz' : ndarray) (w' : world attr G) : Prop :=
  rng w' = rng w
  /\ length xyz' = length (db_get (store w) kwargs)
  /\ db_get (store w') kwargs = xyz'
  /\ map attrs (store w') = map attrs (store w)
  /\ forall i a, nth_error (store w) i = Some a -> kwargs (attrs a) = false ->
       nth_error (store w') i = Some a.

(** The identity matrix, the coordinate axes and the opposite of a vector. *)
Definition identity3 : mat3 := ((1, 0, 0), (0, 1, 0), (0, 0, 1)).
Definition axis_x : vec3 := (1, 0, 0).
Definition axis_y : vec3 := (0, 1, 0).
Definition axis_z : vec3 := (0, 0, 1).
Definition vopp (v : vec3) : vec3 := (- vx v, - vy v, - vz v).
Definition vscale (t : R) (v : vec3) : vec3 := (t * vx v, t * vy v, t * vz v).

(** ** Concrete inputs *)

(** Three points whose centroid is the origin. *)
Definition triangle : ndarray := [(1, 0, 0); (0, 1, 0); (-1, -1, 0)].

(** One point off the diagonal, and the quarter turn about the z axis. *)
Definition lone_point : ndarray := [(3, 0, 0)].
Definition quarter_turn_z : mat3 := ((0, -1, 0), (1, 0, 0), (0, 0, 1)).

(** A stand-in for numpy's generator: it counts the draws, accepts the
    seeds of 32 bits and draws [1 / (n + 2)] at the count [n]. *)
Definition counter_gen : generator := {|
  gen_state := nat;
  gen_seed := fun s => if ((0 <=? s) && (s <? 2 ^ 32))%Z then Some 0%nat else None;
  gen_rand := fun n => (/ (INR n + 2), S n)
|}.

(** A structure of two atoms, of the chains A and B, and the selections
    [chainID='A'] and [chainID='C']. *)
Definition two_chains : database string :=
  [ {| attrs := "A"%string; pos := (1, 2, 3) |};
    {| attrs := "B"%string; pos := (4, 5, 6) |} ].
Definition chain (c : string) : selection string := String.eqb c.
Definition two_chains_world : world string counter_gen :=
  @Build_world string counter_gen two_chains 0%nat.

(** A structure of three atoms, two of them of the chain A, and the
    selection of the atoms whose chain is one of a list. *)
Definition three_atoms : database string :=
  [ {| attrs := "A"%string; pos := (1, 2, 3) |};
    {| attrs := "B"%string; pos := (4, 5, 6) |};
    {| attrs := "A"%string; pos := (3, 2, 1) |} ].
Definition three_atoms_world : world string counter_gen :=
  @Build_world string counter_gen three_atoms 0%nat.

Lemma vec3_eq (x y z x' y' z' : R) :
  x = x' -> y = y' -> z = z' -> (x, y, z) = (x', y', z').
Proof. now intros -> -> ->. Qed.

(** Equality of two vectors, coordinate by coordinate, each by [ring]. *)
Ltac vec_ring :=
  cbv [vadd vsub np.vdot vx vy vz fst snd]; apply vec3_eq; ring.

(** ** The numpy operations on arrays with at least one row *)

Lemma zip3_T (a : ndarray) : np.zip3 (map vx a) (map vy a) (map vz a) = a.
Proof.
  induction a as [|[[x y] z] a IH]; simpl; [reflexivity|].
  now rewrite IH.
Qed.

Lemma lincomb_T (r : vec3) (a : ndarray) :
  np.lincomb r (map vx a) (map vy a) (map vz a) = map (np.vdot r) a.
Proof.
  induction a as [|p a IH]; simpl; [reflexivity|].
  now rewrite IH.
Qed.

Lemma dot_T (m : mat3) (a : ndarray) :
  a <> [] -> np.dot m (np.T a) = Ok (np.T (map (mat_vec m) a)).
Proof.
  destruct m as [[r0 r1] r2]. intros Ha.
  destruct a as [|p a]; [contradiction|].
  unfold np.dot, np.T. cbn [map].
  rewrite <- !map_cons, !lincomb_T, !map_map.
  reflexivity.
Qed.

Lemma dot_T_nil (m : mat3) : np.dot m (np.T []) = Raise ValueError.
Proof. destruct m as [[r0 r1] r2]. reflexivity. Qed.

(** The last line of each kernel: [np.dot(m, (xyz - c).T).T + c] rotates
    every row about [c]. *)
Lemma apply_rotation (m : mat3) (c : vec3) (a : ndarray) :
  a <> [] ->
  (r <- np.dot m (np.T (np.sub a c)) ;; Ok (np.add (np.T' r) c))%result
  = Ok (map (rotate_about m c) a).
Proof.
  intros Ha.
  rewrite dot_T by (destruct a; [contradiction | discriminate]).
  cbn [rbind]. unfold np.T', np.T, np.add, np.sub.
  rewrite zip3_T, !map_map. reflexivity.
Qed.

Lemma apply_rotation_nil (m : mat3) (c : vec3) :
  (r <- np.dot m (np.T (np.sub [] c)) ;; Ok (np.add (np.T' r) c))%result
  = Raise ValueError.
Proof. cbn [np.sub map]. now rewrite dot_T_nil. Qed.

Lemma mean0_centroid (a : ndarray) : np.mean0 a = centroid a.
Proof. reflexivity. Qed.

Lemma rot_xyz_around_axis_eq (P : ndarray) (u : vec3) (a : R) (center : option vec3) :
  P <> [] ->
  rot_xyz_around_axis P u a center
  = Ok (map (rotate_about (rodrigues u a)
               (match center with None => centroid P | Some c => c end)) P).
Proof.
  intros HP. destruct u as [[ux uy] uz]. unfold rot_xyz_around_axis.
  rewrite apply_rotation by assumption.
  f_equal. destruct center as [c|]; rewrite ?mean0_centroid;
    (apply map_ext; intros p; f_equal; unfold rodrigues; cbn [vx vy vz fst snd];
     repeat f_equal; ring).
Qed.

Lemma _rotation_euler_eq (P : ndarray) (alpha beta gamma : R) :
  P <> [] ->
  _rotation_euler P alpha beta gamma
  = Ok (map (rotate_about (mat_mul (Rz gamma) (mat_mul (Ry beta) (Rx alpha)))
               (centroid P)) P).
Proof.
  intros HP. unfold _rotation_euler.
  rewrite apply_rotation by assumption. reflexivity.
Qed.

(** ** Linear algebra of the rotation matrices *)

Lemma cos_sin_1 (a : R) : cos a * cos a + sin a * sin a = 1.
Proof. generalize (sin2_cos2 a). unfold Rsqr. lra. Qed.

Lemma mat_vec_vsub (m : mat3) (p q : vec3) :
  mat_vec m (vsub p q) = vsub (mat_vec m p) (mat_vec m q).
Proof.
  destruct m as [[[[a b] c] [[d e] f]] [[g h] i]].
  destruct p as [[x y] z], q as [[x' y'] z'].
  cbv [mat_vec vsub np.vdot vx vy vz fst snd]. apply vec3_eq; ring.
Qed.

Lemma mat_vec_mul (a b : mat3) (v : vec3) :
  mat_vec (mat_mul a b) v = mat_vec a (mat_vec b v).
Proof.
  destruct a as [[[[a0 a1] a2] [[a3 a4] a5]] [[a6 a7] a8]].
  destruct b as [[[[b0 b1] b2] [[b3 b4] b5]] [[b6 b7] b8]].
  destruct v as [[x y] z].
  cbv [mat_vec mat_mul np.col np.vdot vx vy vz fst snd]. apply vec3_eq; ring.
Qed.

Lemma isometry_mul (a b : mat3) : isometry a -> isometry b -> isometry (mat_mul a b).
Proof. intros Ha Hb v. now rewrite mat_vec_mul, Ha, Hb. Qed.

Lemma Rx_isometry (alpha : R) : isometry (Rx alpha).
Proof.
  intros [[x y] z]. generalize (cos_sin_1 alpha).
  cbv [Rx norm2 mat_vec np.vdot vx vy vz fst snd]. intros H.
  replace (_ + _ + _) with (x * x + (y * y + z * z) * (cos alpha * cos alpha + sin alpha * sin alpha)) by ring.
  rewrite H. ring.
Qed.

Lemma Ry_isometry (beta : R) : isometry (Ry beta).
Proof.
  intros [[x y] z]. generalize (cos_sin_1 beta).
  cbv [Ry norm2 mat_vec np.vdot vx vy vz fst snd]. intros H.
  replace (_ + _ + _) with (y * y + (x * x + z * z) * (cos beta * cos beta + sin beta * sin beta)) by ring.
  rewrite H. ring.
Qed.

Lemma Rz_isometry (gamma : R) : isometry (Rz gamma).
Proof.
  intros [[x y] z]. generalize (cos_sin_1 gamma).
  cbv [Rz norm2 mat_vec np.vdot vx vy vz fst snd]. intros H.
  replace (_ + _ + _) with (z * z + (x * x + y * y) * (cos gamma * cos gamma + sin gamma * sin gamma)) by ring.
  rewrite H. ring.
Qed.

Lemma euler_isometry (alpha beta gamma : R) :
  isometry (mat_mul (Rz gamma) (mat_mul (Ry beta) (Rx alpha))).
Proof.
  auto using isometry_mul, Rx_isometry, Ry_isometry, Rz_isometry.
Qed.

(** The defect of [|R v|^2 = |v|^2] for the Rodrigues matrix is a combination
    of the defects of [c^2 + s^2 = 1] and [|u|^2 = 1]. *)
Lemma rodrigues_norm2_defect (u v : vec3) (a : R) :
  norm2 (mat_vec (rodrigues u a) v) - norm2 v
  = (cos a * cos a + sin a * sin a - 1) * (norm2 v - np.vdot u v * np.vdot u v)
    + (norm2 u - 1)
      * (sin a * sin a * norm2 v + (1 - cos a) * (1 - cos a) * (np.vdot u v * np.vdot u v)).
Proof.
  destruct u as [[ux uy] uz], v as [[x y] z].
  cbv [rodrigues norm2 mat_vec np.vdot vx vy vz fst snd]. ring.
Qed.

Lemma rodrigues_isometry (u : vec3) (a : R) : unit_axis u -> isometry (rodrigues u a).
Proof.
  intros Hu v. generalize (rodrigues_norm2_defect u v a).
  rewrite cos_sin_1, Hu. lra.
Qed.

(** The rotation by [-a] after the rotation by [a], up to the same two
    defects. *)
Lemma rodrigues_inverse_defect (u v : vec3) (a : R) :
  let e := cos a * cos a + sin a * sin a - 1 in
  let n := norm2 u - 1 in
  let k1 := e + sin a * sin a * n in
  let k2 := (1 - cos a) * (1 - cos a) * n - e in
  mat_vec (rodrigues u (- a)) (mat_vec (rodrigues u a) v)
  = (vx v + k1 * vx v + k2 * np.vdot u v * vx u,
     vy v + k1 * vy v + k2 * np.vdot u v * vy u,
     vz v + k1 * vz v + k2 * np.vdot u v * vz u).
Proof.
  destruct u as [[ux uy] uz], v as [[x y] z].
  unfold rodrigues. rewrite cos_neg, sin_neg.
  cbv [norm2 mat_vec np.vdot vx vy vz fst snd]. apply vec3_eq; ring.
Qed.

Lemma rodrigues_inverse (u v : vec3) (a : R) :
  unit_axis u -> mat_vec (rodrigues u (- a)) (mat_vec (rodrigues u a) v) = v.
Proof.
  intros Hu. rewrite rodrigues_inverse_defect. cbv zeta.
  rewrite cos_sin_1, Hu. destruct v as [[x y] z].
  cbv [vx vy vz fst snd]. apply vec3_eq; ring.
Qed.

Lemma vsub_rotate_about (m : mat3) (c p q : vec3) :
  vsub (rotate_about m c p) (rotate_about m c q) = mat_vec m (vsub p q).
Proof.
  destruct m as [[[[m0 m1] m2] [[m3 m4] m5]] [[m6 m7] m8]].
  destruct p as [[x y] z], q as [[x' y'] z'], c as [[cx cy] cz].
  cbv [rotate_about mat_vec]. vec_ring.
Qed.

Lemma vsub_rotate_about_center (m : mat3) (c p : vec3) :
  vsub (rotate_about m c p) c = mat_vec m (vsub p c).
Proof.
  destruct m as [[[[m0 m1] m2] [[m3 m4] m5]] [[m6 m7] m8]].
  destruct p as [[x y] z], c as [[cx cy] cz].
  cbv [rotate_about mat_vec]. vec_ring.
Qed.

Lemma rotate_about_dist (m : mat3) (c p q : vec3) :
  isometry m -> dist (rotate_about m c p) (rotate_about m c q) = dist p q.
Proof. intros Hm. unfold dist. now rewrite vsub_rotate_about, Hm. Qed.

Lemma rotate_about_center_dist (m : mat3) (c p : vec3) :
  isometry m -> dist (rotate_about m c p) c = dist p c.
Proof. intros Hm. unfold dist. now rewrite vsub_rotate_about_center, Hm. Qed.

Lemma rotate_about_inverse (u c p : vec3) (a : R) :
  unit_axis u ->
  rotate_about (rodrigues u (- a)) c (rotate_about (rodrigues u a) c p) = p.
Proof.
  intros Hu. unfold rotate_about at 1.
  rewrite vsub_rotate_about_center, rodrigues_inverse by assumption.
  destruct p as [[x y] z], c as [[cx cy] cz].
  cbv [vadd vsub vx vy vz fst snd]. apply vec3_eq; ring.
Qed.

(** ** The centroid under an affine map *)

Lemma Rsum_affine (a b c k : R) (P : list vec3) :
  Rsum (map (fun p => a * vx p + b * vy p + c * vz p + k) P)
  = a * Rsum (map vx P) + b * Rsum (map vy P) + c * Rsum (map vz P)
    + k * INR (length P).
Proof.
  induction P as [|p P IH].
  - simpl. ring.
  - cbn [map Rsum fold_right length]. fold (Rsum (map vx P)) (Rsum (map vy P)) (Rsum (map vz P)).
    change (fold_right Rplus 0 ?l) with (Rsum l). rewrite IH, S_INR. ring.
Qed.

Lemma INR_length_neq_0 {A : Type} (l : list A) : l <> [] -> INR (length l) <> 0.
Proof.
  destruct l; [contradiction|]. intros _. apply not_0_INR. discriminate.
Qed.

Lemma centroid_rotate_about (m : mat3) (c : vec3) (P : list vec3) :
  P <> [] ->
  centroid (map (rotate_about m c) P) = rotate_about m c (centroid P).
Proof.
  intros HP. apply INR_length_neq_0 in HP.
  destruct m as [[[[m0 m1] m2] [[m3 m4] m5]] [[m6 m7] m8]], c as [[cx cy] cz].
  unfold centroid. rewrite !map_map, length_map.
  rewrite (map_ext _ (fun p => m0 * vx p + m1 * vy p + m2 * vz p
                               + (cx - m0 * cx - m1 * cy - m2 * cz)))
    by (intros [[x y] z]; cbv [rotate_about mat_vec vadd vsub np.vdot vx vy vz fst snd]; ring).
  rewrite (map_ext (fun p => vy _) (fun p => m3 * vx p + m4 * vy p + m5 * vz p
                               + (cy - m3 * cx - m4 * cy - m5 * cz)))
    by (intros [[x y] z]; cbv [rotate_about mat_vec vadd vsub np.vdot vx vy vz fst snd]; ring).
  rewrite (map_ext (fun p => vz _) (fun p => m6 * vx p + m7 * vy p + m8 * vz p
                               + (cz - m6 * cx - m7 * cy - m8 * cz)))
    by (intros [[x y] z]; cbv [rotate_about mat_vec vadd vsub np.vdot vx vy vz fst snd]; ring).
  rewrite !Rsum_affine.
  cbv [rotate_about mat_vec vadd vsub np.vdot vx vy vz fst snd].
  apply vec3_eq; field; assumption.
Qed.

Lemma rotate_about_center (m : mat3) (c : vec3) : rotate_about m c c = c.
Proof.
  destruct m as [[[[m0 m1] m2] [[m3 m4] m5]] [[m6 m7] m8]], c as [[cx cy] cz].
  cbv [rotate_about mat_vec vadd vsub np.vdot vx vy vz fst snd].
  apply vec3_eq; ring.
Qed.

(** * The rotation kernels *)

(** C4. For a point set with at least one point, the axis-angle kernel
    returns an array of the same length whose row [i] is
    [R . (points[i] - center) + center], where [R] is the matrix of
    Rodrigues' formula for the axis and the angle, and the center is the
    caller's or, when none is given, the centroid of the points. *)
Theorem rot_xyz_around_axis_rodrigues (P : ndarray) (u : vec3) (a : R)
    (center : option vec3) :
  P <> [] ->
  exists Q,
    rot_xyz_around_axis P u a center = Ok Q
    /\ length Q = length P
    /\ forall i p, nth_error P i = Some p ->
         nth_error Q i
         = Some (rotate_about (rodrigues u a)
                   (match center with None => centroid P | Some c => c end) p).
Proof.
  intros HP. eexists. split; [apply rot_xyz_around_axis_eq, HP|].
  split; [apply length_map|].
  intros i p Hi. now rewrite nth_error_map, Hi.
Qed.

Lemma rot_xyz_around_axis_rodrigues_witness :
  triangle <> []
  /\ exists Q,
       rot_xyz_around_axis triangle (0, 0, 1) PI None = Ok Q
       /\ length Q = length triangle
       /\ forall i p, nth_error triangle i = Some p ->
            nth_error Q i
            = Some (rotate_about (rodrigues (0, 0, 1) PI) (centroid triangle) p).
Proof.
  split; [discriminate|].
  apply (rot_xyz_around_axis_rodrigues triangle (0, 0, 1) PI None). discriminate.
Defined.

(** C5. The Euler kernel rotates every point about the centroid by
    [Rz(gamma) . Ry(beta) . Rx(alpha)]; for [alpha = pi/2], [beta = 0],
    [gamma = 0] and a point set whose centroid is the origin, a point
    (1,0,0) stays at (1,0,0) and a point (0,1,0) goes to (0,0,1). *)
Theorem _rotation_euler_order (P : ndarray) (alpha beta gamma : R) :
  P <> [] ->
  _rotation_euler P alpha beta gamma
  = Ok (map (rotate_about (mat_mul (Rz gamma) (mat_mul (Ry beta) (Rx alpha)))
               (centroid P)) P)
  /\ (centroid P = (0, 0, 0) ->
      exists Q,
        _rotation_euler P (PI / 2) 0 0 = Ok Q
        /\ forall i,
             (nth_error P i = Some (1, 0, 0) -> nth_error Q i = Some (1, 0, 0))
             /\ (nth_error P i = Some (0, 1, 0) -> nth_error Q i = Some (0, 0, 1))).
Proof.
  intros HP. split; [apply _rotation_euler_eq, HP|].
  intros Hc. eexists. split; [apply _rotation_euler_eq, HP|].
  rewrite Hc.
  intros i; split; intros Hi; rewrite nth_error_map, Hi; cbn [option_map]; f_equal;
    cbv [rotate_about mat_vec mat_mul Rx Ry Rz np.col];
    rewrite cos_PI2, sin_PI2, cos_0, sin_0; vec_ring.
Qed.

Lemma centroid_triangle : centroid triangle = (0, 0, 0).
Proof.
  cbv [centroid triangle map Rsum fold_right length vx vy vz fst snd INR].
  apply vec3_eq; field.
Qed.

Lemma _rotation_euler_order_witness :
  triangle <> []
  /\ _rotation_euler triangle (PI / 2) 0 0
     = Ok (map (rotate_about (mat_mul (Rz 0) (mat_mul (Ry 0) (Rx (PI / 2))))
                  (centroid triangle)) triangle)
  /\ exists Q,
       _rotation_euler triangle (PI / 2) 0 0 = Ok Q
       /\ forall i,
            (nth_error triangle i = Some (1, 0, 0) -> nth_error Q i = Some (1, 0, 0))
            /\ (nth_error triangle i = Some (0, 1, 0) -> nth_error Q i = Some (0, 0, 1)).
Proof.
  split; [discriminate|].
  destruct (_rotation_euler_order triangle (PI / 2) 0 0) as [H1 H2]; [discriminate|].
  split; [exact H1 | exact (H2 centroid_triangle)].
Defined.

(** A rotated array has one row for each row of the input; its rows [i]
    and [j] are as far from each other, and its row [i] as far from the
    center, as those of the input. *)
Lemma rows_rigid (m : mat3) (c : vec3) (P : ndarray) :
  isometry m ->
  length (map (rotate_about m c) P) = length P
  /\ (forall i j p q,
        nth_error P i = Some p -> nth_error P j = Some q ->
        exists p' q',
          nth_error (map (rotate_about m c) P) i = Some p'
          /\ nth_error (map (rotate_about m c) P) j = Some q'
          /\ dist p' q' = dist p q)
  /\ (forall i p,
        nth_error P i = Some p ->
        exists p',
          nth_error (map (rotate_about m c) P) i = Some p'
          /\ dist p' c = dist p c).
Proof.
  intros Hm. split; [apply length_map|]. split.
  - intros i j p q Hi Hj. rewrite !nth_error_map, Hi, Hj. cbn [option_map].
    do 2 eexists. split; [reflexivity|]. split; [reflexivity|].
    now apply rotate_about_dist.
  - intros i p Hi. rewrite nth_error_map, Hi. cbn [option_map].
    eexists. split; [reflexivity|]. now apply rotate_about_center_dist.
Qed.

(** C6. For a point set with at least one point, the axis-angle kernel with
    a unit axis and the Euler kernel each return an array with one point
    for each point of the input, in which the distance of any two points,
    and the distance of every point to the center of the rotation, are
    those of the input. *)
Theorem rotation_kernels_rigid (P : ndarray) (u : vec3) (a : R)
    (center : option vec3) (alpha beta gamma : R) :
  P <> [] -> unit_axis u ->
  (exists Q,
     rot_xyz_around_axis P u a center = Ok Q
     /\ length Q = length P
     /\ (forall i j p q,
           nth_error P i = Some p -> nth_error P j = Some q ->
           exists p' q',
             nth_error Q i = Some p' /\ nth_error Q j = Some q'
             /\ dist p' q' = dist p q)
     /\ (forall i p,
           nth_error P i = Some p ->
           exists p',
             nth_error Q i = Some p'
             /\ dist p' (match center with None => centroid P | Some c => c end)
                = dist p (match center with None => centroid P | Some c => c end)))
  /\ (exists Q,
        _rotation_euler P alpha beta gamma = Ok Q
        /\ length Q = length P
        /\ (forall i j p q,
              nth_error P i = Some p -> nth_error P j = Some q ->
              exists p' q',
                nth_error Q i = Some p' /\ nth_error Q j = Some q'
                /\ dist p' q' = dist p q)
        /\ (forall i p,
              nth_error P i = Some p ->
              exists p',
                nth_error Q i = Some p'
                /\ dist p' (centroid P) = dist p (centroid P))).
Proof.
  intros HP Hu. split.
  - eexists. split; [apply rot_xyz_around_axis_eq, HP|].
    apply rows_rigid, rodrigues_isometry, Hu.
  - eexists. split; [apply _rotation_euler_eq, HP|].
    apply rows_rigid, euler_isometry.
Qed.

Lemma unit_axis_z : unit_axis (0, 0, 1).
Proof. cbv [unit_axis norm2 vx vy vz fst snd]. ring. Qed.

Lemma rotation_kernels_rigid_witness :
  triangle <> [] /\ unit_axis (0, 0, 1)
  /\ (exists Q,
        rot_xyz_around_axis triangle (0, 0, 1) 1 None = Ok Q
        /\ length Q = length triangle
        /\ (forall i j p q,
              nth_error triangle i = Some p -> nth_error triangle j = Some q ->
              exists p' q',
                nth_error Q i = Some p' /\ nth_error Q j = Some q'
                /\ dist p' q' = dist p q)
        /\ (forall i p,
              nth_error triangle i = Some p ->
              exists p',
                nth_error Q i = Some p'
                /\ dist p' (centroid triangle) = dist p (centroid triangle)))
  /\ (exists Q,
        _rotation_euler triangle 1 2 3 = Ok Q
        /\ length Q = length triangle
        /\ (forall i j p q,
              nth_error triangle i = Some p -> nth_error triangle j = Some q ->
              exists p' q',
                nth_error Q i = Some p' /\ nth_error Q j = Some q'
                /\ dist p' q' = dist p q)
        /\ (forall i p,
              nth_error triangle i = Some p ->
              exists p',
                nth_error Q i = Some p'
                /\ dist p' (centroid triangle) = dist p (centroid triangle))).
Proof.
  split; [discriminate|]. split; [exact unit_axis_z|].
  apply (rotation_kernels_rigid triangle (0, 0, 1) 1 None 1 2 3);
    [discriminate | exact unit_axis_z].
Defined.

(** C8. For a point set with at least one point, a unit axis and a center,
    the axis-angle kernel by the angle [a] followed by the axis-angle kernel
    by [-a] about the same center returns the point set. *)
Theorem rot_xyz_around_axis_round_trip (P : ndarray) (u : vec3) (a : R) (C : vec3) :
  P <> [] -> unit_axis u ->
  exists Q,
    rot_xyz_around_axis P u a (Some C) = Ok Q
    /\ rot_xyz_around_axis Q u (- a) (Some C) = Ok P.
Proof.
  intros HP Hu. eexists. split; [apply rot_xyz_around_axis_eq, HP|].
  rewrite rot_xyz_around_axis_eq by (destruct P; [contradiction | discriminate]).
  f_equal. rewrite map_map. rewrite <- (map_id P) at 2.
  apply map_ext. intros p. now apply rotate_about_inverse.
Qed.

Lemma rot_xyz_around_axis_round_trip_witness :
  triangle <> [] /\ unit_axis (0, 0, 1)
  /\ exists Q,
       rot_xyz_around_axis triangle (0, 0, 1) 1 (Some (1, 2, 3)) = Ok Q
       /\ rot_xyz_around_axis Q (0, 0, 1) (- 1) (Some (1, 2, 3)) = Ok triangle.
Proof.
  split; [discriminate|]. split; [exact unit_axis_z|].
  apply (rot_xyz_around_axis_round_trip triangle (0, 0, 1) 1 (1, 2, 3));
    [discriminate | exact unit_axis_z].
Defined.

(** C10. For a point set with at least one point, the axis-angle kernel
    with the default center and the Euler kernel return arrays whose
    centroid is the centroid of the input. *)
Theorem rotation_kernels_fix_centroid (P : ndarray) (u : vec3)
    (a alpha beta gamma : R) :
  P <> [] ->
  (exists Q, rot_xyz_around_axis P u a None = Ok Q /\ centroid Q = centroid P)
  /\ (exists Q, _rotation_euler P alpha beta gamma = Ok Q /\ centroid Q = centroid P).
Proof.
  intros HP. split; eexists;
    (split; [first [apply rot_xyz_around_axis_eq, HP | apply _rotation_euler_eq, HP]|]);
    now rewrite centroid_rotate_about, rotate_about_center.
Qed.

Lemma rotation_kernels_fix_centroid_witness :
  triangle <> []
  /\ (exists Q,
        rot_xyz_around_axis triangle (0, 0, 1) 1 None = Ok Q
        /\ centroid Q = centroid triangle)
  /\ (exists Q,
        _rotation_euler triangle 1 2 3 = Ok Q /\ centroid Q = centroid triangle).
Proof.
  split; [discriminate|].
  apply (rotation_kernels_fix_centroid triangle (0, 0, 1) 1 1 2 3). discriminate.
Defined.

(** * The explicit-matrix kernel *)

(** With [center=True] the kernel rotates about the point whose three
    coordinates are the mean of all the entries of the array. *)
Lemma rotation_matrix_eq (P : ndarray) (m : mat3) :
  P <> [] ->
  rotation_matrix P m true
  = Ok (map (rotate_about m (np.mean P, np.mean P, np.mean P)) P).
Proof.
  intros HP. unfold rotation_matrix, np.sub_scalar, np.add_scalar.
  now apply apply_rotation.
Qed.

Lemma mean_lone_point : np.mean lone_point = 1.
Proof.
  cbv [np.mean np.ravel lone_point flat_map app Rsum fold_right length
       vx vy vz fst snd INR].
  field.
Qed.

(** C2, at the point set [(3,0,0)] and the quarter turn about z: the kernel
    rotates about (1,1,1) and returns (2,3,0), whereas the rotation about
    the centroid (3,0,0) leaves the point at (3,0,0). *)
Theorem rotation_matrix_not_about_centroid :
  rotation_matrix lone_point quarter_turn_z true = Ok [(2, 3, 0)]
  /\ map (rotate_about quarter_turn_z (centroid lone_point)) lone_point = [(3, 0, 0)]
  /\ rotation_matrix lone_point quarter_turn_z true
     <> Ok (map (rotate_about quarter_turn_z (centroid lone_point)) lone_point).
Proof.
  assert (H1 : rotation_matrix lone_point quarter_turn_z true = Ok [(2, 3, 0)]).
  { rewrite rotation_matrix_eq by discriminate. rewrite mean_lone_point.
    cbv [lone_point map rotate_about mat_vec quarter_turn_z].
    do 2 f_equal. vec_ring. }
  assert (H2 : map (rotate_about quarter_turn_z (centroid lone_point)) lone_point
               = [(3, 0, 0)]).
  { cbv [lone_point map rotate_about mat_vec quarter_turn_z centroid Rsum
         fold_right length INR].
    f_equal. cbv [vadd vsub np.vdot vx vy vz fst snd]. apply vec3_eq; field. }
  split; [exact H1|]. split; [exact H2|].
  rewrite H1, H2. intros [= H _]. lra.
Qed.

(** * The sampler *)

(** What a call of the sampler does to the world, and how it ends. *)
Lemma get_rot_axis_angle_run (attr : Type) (G : generator)
    (seed : option Z) (w : world attr G) :
  get_rot_axis_angle seed w
  = match seed with
    | None =>
        (Raise NameError,
         Build_world (store w) (snd (gen_rand G (snd (gen_rand G (rng w))))))
    | Some s =>
        match gen_seed G s with
        | Some g =>
            (Raise NameError,
             Build_world (store w) (snd (gen_rand G (snd (gen_rand G g)))))
        | None => (Raise ValueError, w)
        end
    end.
Proof.
  unfold get_rot_axis_angle, bind, np_random_seed, np_random_rand, ret.
  destruct seed as [s|].
  - destruct (gen_seed G s) as [g|]; [|reflexivity]. cbn [store rng].
    destruct (gen_rand G g) as [u1 g1]. cbn [store rng snd].
    destruct (gen_rand G g1) as [u2 g2]. reflexivity.
  - destruct (gen_rand G (rng w)) as [u1 g1]. cbn [store rng snd].
    destruct (gen_rand G g1) as [u2 g2]. reflexivity.
Qed.

(** C1. The sampler returns no pair: for an absent seed and for a seed that
    numpy accepts, both draws are made and the [return] statement raises
    [NameError], since no assignment binds [angle]; a seed that numpy
    rejects raises [ValueError] before any draw. *)
Theorem get_rot_axis_angle_raises (attr : Type) (G : generator)
    (seed : option Z) (w : world attr G) :
  fst (get_rot_axis_angle seed w)
  = match seed with
    | None => Raise NameError
    | Some s =>
        match gen_seed G s with
        | Some _ => Raise NameError
        | None => Raise ValueError
        end
    end.
Proof.
  rewrite get_rot_axis_angle_run.
  destruct seed as [s|]; [destruct (gen_seed G s)|]; reflexivity.
Qed.

(** C7. Two successive calls of the sampler with the same seed end in the
    same way and leave the generator in the same state, and that way is an
    exception: neither call returns a pair. *)
Theorem get_rot_axis_angle_same_seed (attr : Type) (G : generator)
    (s : Z) (w : world attr G) :
  let r1 := get_rot_axis_angle (Some s) w in
  let r2 := get_rot_axis_angle (Some s) (snd r1) in
  r1 = r2
  /\ fst r1 = match gen_seed G s with
              | Some _ => Raise NameError
              | None => Raise ValueError
              end.
Proof.
  cbv zeta. rewrite !get_rot_axis_angle_run.
  destruct (gen_seed G s); split; reflexivity.
Qed.

(** * The read-transform-write functions *)

Section Commit.

Context {attr : Type} {G : generator}.
Implicit Types (d : database attr) (kwargs : selection attr) (w : world attr G).

(** A write of as many rows as the selection has succeeds. *)
Lemma db_put_length d kwargs (xyz : list vec3) :
  length xyz = length (db_get d kwargs) -> exists d', db_put d kwargs xyz = Some d'.
Proof.
  unfold db_get. revert xyz. induction d as [|a d IH]; intros xyz; cbn [filter db_put].
  - destruct xyz; [now eexists | discriminate].
  - destruct (kwargs (attrs a)).
    + destruct xyz as [|p xyz]; [discriminate|]. cbn [map length]. intros [= H].
      destruct (IH _ H) as [d' ->]. now eexists.
    + intros H. destruct (IH _ H) as [d' ->]. now eexists.
Qed.

(** What a successful write leaves in the database: the selected rows hold
    the written coordinates, in order; no row is added, removed or moved;
    the rows outside the selection are as they were. *)
Lemma db_put_effect d kwargs (xyz : list vec3) d' :
  db_put d kwargs xyz = Some d' ->
  db_get d' kwargs = xyz
  /\ map attrs d' = map attrs d
  /\ forall i a, nth_error d i = Some a -> kwargs (attrs a) = false ->
       nth_error d' i = Some a.
Proof.
  unfold db_get. revert xyz d'. induction d as [|a d IH]; intros xyz d'; cbn [db_put].
  - destruct xyz; [|discriminate]. intros [= <-]. repeat split.
    intros [|i] b; discriminate.
  - destruct (kwargs (attrs a)) eqn:Ha.
    + destruct xyz as [|p xyz]; [discriminate|].
      destruct (db_put d kwargs xyz) as [d0|] eqn:Hd; [|discriminate].
      cbn [option_map]. intros [= <-].
      destruct (IH _ _ Hd) as (Hget & Hattrs & Hframe).
      cbn [filter map attrs pos]. rewrite Ha. cbn [map pos]. rewrite Hget, Hattrs.
      repeat split. intros [|i] b; cbn [nth_error].
      * intros [= <-]. congruence.
      * apply Hframe.
    + destruct (db_put d kwargs xyz) as [d0|] eqn:Hd; [|discriminate].
      cbn [option_map]. intros [= <-].
      destruct (IH _ _ Hd) as (Hget & Hattrs & Hframe).
      cbn [filter map]. rewrite Ha, Hget, Hattrs.
      repeat split. intros [|i] b; cbn [nth_error]; [trivial | apply Hframe].
Qed.

Lemma _update_commits w kwargs (xyz' : ndarray) :
  length xyz' = length (db_get (store w) kwargs) ->
  exists w', _update xyz' kwargs w = (Ok tt, w') /\ committed w kwargs xyz' w'.
Proof.
  intros Hlen. unfold _update.
  destruct (db_put_length _ _ _ Hlen) as [d' Hd]. rewrite Hd.
  eexists. split; [reflexivity|].
  destruct (db_put_effect _ _ _ _ Hd) as (Hget & Hattrs & Hframe).
  repeat split; assumption.
Qed.

(** [rot_mat] reads the selection and stops at the name [_rotation_matrix],
    which the module does not bind: nothing is written and nothing drawn. *)
Lemma rot_mat_run w kwargs (mat : mat3) :
  rot_mat mat kwargs w = (Raise NameError, w).
Proof. reflexivity. Qed.

Lemma rot_axis_on_empty w kwargs (axis : vec3) (angle : R) :
  db_get (store w) kwargs = [] ->
  rot_axis axis angle kwargs w = (Raise ValueError, w).
Proof.
  intros He. unfold rot_axis, bind, _get_xyz, lift. rewrite He.
  destruct axis as [[ux uy] uz]. unfold rot_xyz_around_axis.
  now rewrite apply_rotation_nil.
Qed.

Lemma rot_euler_on_empty w kwargs (alpha beta gamma : R) :
  db_get (store w) kwargs = [] ->
  rot_euler alpha beta gamma kwargs w = (Raise ValueError, w).
Proof.
  intros He. unfold rot_euler, bind, _get_xyz, lift. rewrite He.
  unfold _rotation_euler. now rewrite apply_rotation_nil.
Qed.

Lemma translation_on_empty w kwargs (vect : vec3) :
  db_get (store w) kwargs = [] ->
  translation vect kwargs w = (Raise ValueError, w).
Proof.
  intros He. unfold translation, bind, _get_xyz, lift. now rewrite He.
Qed.

(** On a selection with at least one row, the translation and the two
    rotations that the module completes write back one row for each row
    read, in the order read, through the same selection, and keep the rows
    outside the selection. *)
Lemma commit_on_rows w kwargs :
  db_get (store w) kwargs <> [] ->
  (forall vect, exists w',
     translation vect kwargs w = (Ok tt, w')
     /\ committed w kwargs (map (fun p => vadd p vect) (db_get (store w) kwargs)) w')
  /\ (forall axis angle, exists w',
        rot_axis axis angle kwargs w = (Ok tt, w')
        /\ committed w kwargs
             (map (rotate_about (rodrigues axis angle)
                     (centroid (db_get (store w) kwargs)))
                (db_get (store w) kwargs)) w')
  /\ (forall alpha beta gamma, exists w',
        rot_euler alpha beta gamma kwargs w = (Ok tt, w')
        /\ committed w kwargs
             (map (rotate_about (mat_mul (Rz gamma) (mat_mul (Ry beta) (Rx alpha)))
                     (centroid (db_get (store w) kwargs)))
                (db_get (store w) kwargs)) w').
Proof.
  intros Hne. repeat split.
  - intros vect. unfold translation, bind, _get_xyz, lift, np.iadd.
    destruct (db_get (store w) kwargs) as [|p l] eqn:He; [contradiction|].
    rewrite <- He. apply _update_commits. unfold np.add. now rewrite length_map.
  - intros axis angle. unfold rot_axis, bind, _get_xyz, lift.
    rewrite rot_xyz_around_axis_eq by assumption.
    apply _update_commits. now rewrite length_map.
  - intros alpha beta gamma. unfold rot_euler, bind, _get_xyz, lift.
    rewrite _rotation_euler_eq by assumption.
    apply _update_commits. now rewrite length_map.
Qed.

End Commit.

(** C3, at the structure of two chains and the selection [chainID='C'],
    which matches no row: [rot_axis] ends in numpy's [ValueError], which is
    not the empty-selection error. *)
Lemma rot_axis_empty_selection_counterexample :
  db_get (store two_chains_world) (chain "C") = []
  /\ fst (rot_axis (0, 0, 1) PI (chain "C") two_chains_world) = Raise ValueError
  /\ fst (rot_axis (0, 0, 1) PI (chain "C") two_chains_world) <> Raise EmptySelection.
Proof.
  assert (He : db_get (store two_chains_world) (chain "C") = []) by reflexivity.
  split; [exact He|]. rewrite (rot_axis_on_empty _ _ _ _ He).
  split; [reflexivity | discriminate].
Qed.

(** C3, amended. On a selection that matches no row, [rot_axis] and
    [rot_euler] make no emptiness check: each ends in the [ValueError] that
    numpy's matrix product raises on the empty array, before the write, and
    leaves the database and the generator as they were. *)
Theorem rotation_on_empty_selection (attr : Type) (G : generator)
    (w : world attr G) (kwargs : selection attr) (axis : vec3)
    (angle alpha beta gamma : R) :
  db_get (store w) kwargs = [] ->
  rot_axis axis angle kwargs w = (Raise ValueError, w)
  /\ rot_euler alpha beta gamma kwargs w = (Raise ValueError, w).
Proof.
  intros He. split; [now apply rot_axis_on_empty | now apply rot_euler_on_empty].
Qed.

Lemma rotation_on_empty_selection_witness :
  db_get (store two_chains_world) (chain "C") = []
  /\ rot_axis (0, 0, 1) PI (chain "C") two_chains_world
     = (Raise ValueError, two_chains_world)
  /\ rot_euler 1 2 3 (chain "C") two_chains_world
     = (Raise ValueError, two_chains_world).
Proof.
  split; [reflexivity|].
  apply (rotation_on_empty_selection string counter_gen two_chains_world
           (chain "C") (0, 0, 1) PI 1 2 3).
  reflexivity.
Defined.

(** C9, at the structure of two chains, the selection [chainID='A'] and the
    quarter turn about z: [rot_mat] reads one row and ends in [NameError];
    no row is written, the database is as it was. *)
Theorem rot_mat_writes_nothing :
  db_get (store two_chains_world) (chain "A") = [(1, 2, 3)]
  /\ rot_mat quarter_turn_z (chain "A") two_chains_world
     = (Raise NameError, two_chains_world).
Proof. split; [reflexivity | apply rot_mat_run]. Qed.

(** * Further properties of the kernels *)

(** X1. On the empty array each of the three kernels ends in [ValueError]
    and returns no array. *)
Theorem kernels_reject_empty_array (axis : vec3) (angle alpha beta gamma : R)
    (center : option vec3) (m : mat3) (flag : bool) :
  rot_xyz_around_axis [] axis angle center = Raise ValueError
  /\ _rotation_euler [] alpha beta gamma = Raise ValueError
  /\ rotation_matrix [] m flag = Raise ValueError.
Proof.
  split; [|split].
  - destruct axis as [[ux uy] uz]. unfold rot_xyz_around_axis.
    now rewrite apply_rotation_nil.
  - unfold _rotation_euler. now rewrite apply_rotation_nil.
  - destruct flag; unfold rotation_matrix, np.sub_scalar, np.add_scalar.
    + now rewrite apply_rotation_nil.
    + now rewrite dot_T_nil.
Qed.

Lemma map_rotate_about_id (m : mat3) (c : vec3) (P : ndarray) :
  (forall v, mat_vec m v = v) -> map (rotate_about m c) P = P.
Proof.
  intros Hm. rewrite <- (map_id P) at 2. apply map_ext. intros [[x y] z].
  unfold rotate_about. rewrite Hm. destruct c as [[cx cy] cz]. vec_ring.
Qed.

Lemma rodrigues_0 (u v : vec3) : mat_vec (rodrigues u 0) v = v.
Proof.
  destruct u as [[ux uy] uz], v as [[x y] z].
  unfold rodrigues. rewrite cos_0, sin_0. cbv [mat_vec]. vec_ring.
Qed.

(** X2. Over the reals, the rotation by the angle 0 returns the points,
    whatever the axis and the center. *)
Theorem rot_xyz_around_axis_angle_0 (P : ndarray) (u : vec3) (center : option vec3) :
  P <> [] -> rot_xyz_around_axis P u 0 center = Ok P.
Proof.
  intros HP. rewrite rot_xyz_around_axis_eq by assumption.
  f_equal. apply map_rotate_about_id, rodrigues_0.
Qed.

Lemma rot_xyz_around_axis_angle_0_witness :
  triangle <> [] /\ rot_xyz_around_axis triangle (1, 2, 3) 0 None = Ok triangle.
Proof.
  split; [discriminate|].
  apply (rot_xyz_around_axis_angle_0 triangle (1, 2, 3) None). discriminate.
Defined.

(** The rotation by [b] after the rotation by [a], about one axis, differs
    from the rotation by [a + b] by a multiple of the defect of [|u|^2 = 1]. *)
Lemma rodrigues_add_defect (u v : vec3) (a b : R) :
  let n := norm2 u - 1 in
  let k1 := - (sin a * sin b) * n in
  let k2 := (1 - cos a) * (1 - cos b) * n * np.vdot u v in
  mat_vec (rodrigues u b) (mat_vec (rodrigues u a) v)
  = vadd (mat_vec (rodrigues u (a + b)) v)
         (k1 * vx v + k2 * vx u, k1 * vy v + k2 * vy u, k1 * vz v + k2 * vz u).
Proof.
  destruct u as [[ux uy] uz], v as [[x y] z].
  unfold rodrigues. rewrite cos_plus, sin_plus.
  cbv [norm2 mat_vec]. vec_ring.
Qed.

Lemma rodrigues_add (u v : vec3) (a b : R) :
  unit_axis u ->
  mat_vec (rodrigues u b) (mat_vec (rodrigues u a) v) = mat_vec (rodrigues u (a + b)) v.
Proof.
  intros Hu. rewrite rodrigues_add_defect. cbv zeta. rewrite Hu.
  destruct (mat_vec (rodrigues u (a + b)) v) as [[x y] z]. vec_ring.
Qed.

(** X3. Over the reals, two successive rotations about one unit axis and
    one center are the rotation by the sum of the angles. *)
Theorem rot_xyz_around_axis_angles_add (P : ndarray) (u : vec3) (a b : R) (C : vec3) :
  P <> [] -> unit_axis u ->
  exists Q,
    rot_xyz_around_axis P u a (Some C) = Ok Q
    /\ rot_xyz_around_axis Q u b (Some C) = rot_xyz_around_axis P u (a + b) (Some C).
Proof.
  intros HP Hu. eexists. split; [apply rot_xyz_around_axis_eq, HP|].
  rewrite !rot_xyz_around_axis_eq by (destruct P; [contradiction | discriminate]).
  f_equal. rewrite map_map. apply map_ext. intros p.
  unfold rotate_about at 1. rewrite vsub_rotate_about_center, rodrigues_add by assumption.
  reflexivity.
Qed.

Lemma rot_xyz_around_axis_angles_add_witness :
  triangle <> [] /\ unit_axis (0, 0, 1)
  /\ exists Q,
       rot_xyz_around_axis triangle (0, 0, 1) 1 (Some (1, 2, 3)) = Ok Q
       /\ rot_xyz_around_axis Q (0, 0, 1) 2 (Some (1, 2, 3))
          = rot_xyz_around_axis triangle (0, 0, 1) (1 + 2) (Some (1, 2, 3)).
Proof.
  split; [discriminate|]. split; [exact unit_axis_z|].
  apply (rot_xyz_around_axis_angles_add triangle (0, 0, 1) 1 2 (1, 2, 3));
    [discriminate | exact unit_axis_z].
Defined.

(** X4. The opposite axis with the opposite angle is the same rotation; the
    array may be empty and the axis of any length. *)
Theorem rot_xyz_around_axis_opposite (P : ndarray) (u : vec3) (a : R)
    (center : option vec3) :
  rot_xyz_around_axis P (vopp u) (- a) center = rot_xyz_around_axis P u a center.
Proof.
  destruct u as [[ux uy] uz]. unfold rot_xyz_around_axis, vopp. cbv [vx vy vz fst snd].
  rewrite cos_neg, sin_neg.
  match goal with
  | |- rbind (np.dot ?m1 _) _ = rbind (np.dot ?m2 _) _ =>
      replace m1 with m2; [reflexivity|]
  end.
  f_equal; [f_equal|]; apply vec3_eq; ring.
Qed.

Lemma rodrigues_axis (u : vec3) (a t : R) :
  unit_axis u -> mat_vec (rodrigues u a) (vscale t u) = vscale t u.
Proof.
  intros Hu. destruct u as [[ux uy] uz].
  assert (H : ux * ux + uy * uy + uz * uz = 1) by exact Hu.
  cbv [rodrigues mat_vec vscale np.vdot vx vy vz fst snd].
  apply vec3_eq.
  - replace (_ + _ + _) with
      (t * ux * (cos a + (1 - cos a) * (ux * ux + uy * uy + uz * uz))) by ring.
    rewrite H. ring.
  - replace (_ + _ + _) with
      (t * uy * (cos a + (1 - cos a) * (ux * ux + uy * uy + uz * uz))) by ring.
    rewrite H. ring.
  - replace (_ + _ + _) with
      (t * uz * (cos a + (1 - cos a) * (ux * ux + uy * uy + uz * uz))) by ring.
    rewrite H. ring.
Qed.

(** X5. Over the reals, a point on the line through the center along the
    unit axis stays where it is. *)
Theorem rot_xyz_around_axis_fixes_axis (P : ndarray) (u : vec3) (a : R)
    (center : option vec3) :
  P <> [] -> unit_axis u ->
  exists Q,
    rot_xyz_around_axis P u a center = Ok Q
    /\ forall i t,
         let c := match center with None => centroid P | Some c => c end in
         nth_error P i = Some (vadd c (vscale t u)) ->
         nth_error Q i = Some (vadd c (vscale t u)).
Proof.
  intros HP Hu. eexists. split; [apply rot_xyz_around_axis_eq, HP|].
  intros i t. cbv zeta.
  set (c := match center with None => centroid P | Some c => c end).
  intros Hi. rewrite nth_error_map, Hi. cbn [option_map]. f_equal.
  unfold rotate_about.
  replace (vsub (vadd c (vscale t u)) c) with (vscale t u)
    by (destruct c as [[cx cy] cz], u as [[ux uy] uz]; cbv [vscale]; vec_ring).
  rewrite rodrigues_axis by assumption.
  destruct c as [[cx cy] cz], u as [[ux uy] uz]. cbv [vscale]. vec_ring.
Qed.

Lemma rot_xyz_around_axis_fixes_axis_witness :
  triangle <> [] /\ unit_axis (0, 0, 1)
  /\ exists Q,
       rot_xyz_around_axis triangle (0, 0, 1) 1 (Some (1, 0, 5)) = Ok Q
       /\ forall i t,
            nth_error triangle i = Some (vadd (1, 0, 5) (vscale t (0, 0, 1))) ->
            nth_error Q i = Some (vadd (1, 0, 5) (vscale t (0, 0, 1))).
Proof.
  split; [discriminate|]. split; [exact unit_axis_z|].
  apply (rot_xyz_around_axis_fixes_axis triangle (0, 0, 1) 1 (Some (1, 0, 5)));
    [discriminate | exact unit_axis_z].
Defined.

Lemma rotate_about_ext (m m' : mat3) (c p : vec3) :
  (forall v, mat_vec m v = mat_vec m' v) -> rotate_about m c p = rotate_about m' c p.
Proof. intros H. unfold rotate_about. now rewrite H. Qed.

Lemma rotate_about_mul (a b : mat3) (c p : vec3) :
  rotate_about (mat_mul a b) c p = rotate_about a c (rotate_about b c p).
Proof.
  unfold rotate_about at 1 2. now rewrite vsub_rotate_about_center, mat_vec_mul.
Qed.

Lemma rodrigues_x (a : R) (v : vec3) : mat_vec (rodrigues axis_x a) v = mat_vec (Rx a) v.
Proof. destruct v as [[x y] z]. cbv [rodrigues axis_x Rx mat_vec]. vec_ring. Qed.

Lemma rodrigues_y (a : R) (v : vec3) : mat_vec (rodrigues axis_y a) v = mat_vec (Ry a) v.
Proof. destruct v as [[x y] z]. cbv [rodrigues axis_y Ry mat_vec]. vec_ring. Qed.

Lemma rodrigues_z (a : R) (v : vec3) : mat_vec (rodrigues axis_z a) v = mat_vec (Rz a) v.
Proof. destruct v as [[x y] z]. cbv [rodrigues axis_z Rz mat_vec]. vec_ring. Qed.

Lemma map_rotate_about_nonempty (m : mat3) (c : vec3) (P : ndarray) :
  P <> [] -> map (rotate_about m c) P <> [].
Proof. destruct P; [contradiction | discriminate]. Qed.

Lemma centroid_fixed (m : mat3) (P : ndarray) :
  P <> [] -> centroid (map (rotate_about m (centroid P)) P) = centroid P.
Proof. intros HP. now rewrite centroid_rotate_about, rotate_about_center. Qed.

(** X6. Over the reals, the Euler kernel is the axis-angle kernel about x
    by [alpha], then about y by [beta], then about z by [gamma], each call
    with its default center. *)
Theorem _rotation_euler_as_axis_rotations (P : ndarray) (alpha beta gamma : R) :
  P <> [] ->
  _rotation_euler P alpha beta gamma
  = (Q1 <- rot_xyz_around_axis P axis_x alpha None ;;
     Q2 <- rot_xyz_around_axis Q1 axis_y beta None ;;
     rot_xyz_around_axis Q2 axis_z gamma None)%result.
Proof.
  intros HP. rewrite _rotation_euler_eq by assumption.
  rewrite (rot_xyz_around_axis_eq P) by assumption. cbn [rbind].
  rewrite rot_xyz_around_axis_eq by now apply map_rotate_about_nonempty.
  cbn [rbind].
  rewrite rot_xyz_around_axis_eq by now do 2 apply map_rotate_about_nonempty.
  rewrite !centroid_fixed by (try apply map_rotate_about_nonempty; assumption).
  f_equal. rewrite !map_map. apply map_ext. intros p.
  rewrite !rotate_about_mul.
  rewrite (rotate_about_ext _ _ _ _ (rodrigues_z gamma)).
  rewrite (rotate_about_ext _ _ _ _ (rodrigues_y beta)).
  now rewrite (rotate_about_ext _ _ _ _ (rodrigues_x alpha)).
Qed.

Lemma _rotation_euler_as_axis_rotations_witness :
  triangle <> []
  /\ _rotation_euler triangle 1 2 3
     = (Q1 <- rot_xyz_around_axis triangle axis_x 1 None ;;
        Q2 <- rot_xyz_around_axis Q1 axis_y 2 None ;;
        rot_xyz_around_axis Q2 axis_z 3 None)%result.
Proof.
  split; [discriminate|].
  apply (_rotation_euler_as_axis_rotations triangle 1 2 3). discriminate.
Defined.

(** X7. Over the reals, the Euler kernel with three zero angles returns
    the points. *)
Theorem _rotation_euler_zero (P : ndarray) :
  P <> [] -> _rotation_euler P 0 0 0 = Ok P.
Proof.
  intros HP. rewrite _rotation_euler_eq by assumption. f_equal.
  apply map_rotate_about_id. intros [[x y] z].
  cbv [mat_mul Rx Ry Rz np.col mat_vec]. rewrite cos_0, sin_0. vec_ring.
Qed.

Lemma _rotation_euler_zero_witness :
  triangle <> [] /\ _rotation_euler triangle 0 0 0 = Ok triangle.
Proof.
  split; [discriminate|]. apply (_rotation_euler_zero triangle). discriminate.
Defined.

(** ** The explicit-matrix kernel *)

Lemma rotation_matrix_linear (P : ndarray) (m : mat3) :
  P <> [] -> rotation_matrix P m false = Ok (map (mat_vec m) P).
Proof.
  intros HP. unfold rotation_matrix. rewrite dot_T by assumption.
  cbn [rbind]. unfold np.T', np.T. now rewrite zip3_T.
Qed.

Lemma dot33_mat_mul (a b : mat3) : np.dot33 a b = mat_mul a b.
Proof.
  destruct a as [[[[a0 a1] a2] [[a3 a4] a5]] [[a6 a7] a8]].
  destruct b as [[[[b0 b1] b2] [[b3 b4] b5]] [[b6 b7] b8]].
  reflexivity.
Qed.

(** X8. With [center=False] the kernel multiplies every point by the
    matrix, and over the reals two calls are one call with the product
    [np.dot(B, A)]. *)
Theorem rotation_matrix_uncentered_compose (P : ndarray) (A B : mat3) :
  P <> [] ->
  rotation_matrix P A false = Ok (map (mat_vec A) P)
  /\ rotation_matrix (map (mat_vec A) P) B false
     = rotation_matrix P (np.dot33 B A) false.
Proof.
  intros HP. split; [now apply rotation_matrix_linear|].
  rewrite !rotation_matrix_linear by (destruct P; [contradiction | discriminate]).
  f_equal. rewrite map_map. apply map_ext. intros v.
  now rewrite dot33_mat_mul, mat_vec_mul.
Qed.

Lemma rotation_matrix_uncentered_compose_witness :
  triangle <> []
  /\ rotation_matrix triangle quarter_turn_z false
     = Ok (map (mat_vec quarter_turn_z) triangle)
  /\ rotation_matrix (map (mat_vec quarter_turn_z) triangle) quarter_turn_z false
     = rotation_matrix triangle (np.dot33 quarter_turn_z quarter_turn_z) false.
Proof.
  split; [discriminate|].
  apply (rotation_matrix_uncentered_compose triangle quarter_turn_z quarter_turn_z).
  discriminate.
Defined.

(** X9. Over the reals, with the identity matrix the kernel returns the
    points, with either value of [center]. *)
Theorem rotation_matrix_identity (P : ndarray) (flag : bool) :
  P <> [] -> rotation_matrix P identity3 flag = Ok P.
Proof.
  intros HP.
  assert (Hid : forall v, mat_vec identity3 v = v)
    by (intros [[x y] z]; cbv [mat_vec identity3]; vec_ring).
  destruct flag.
  - rewrite rotation_matrix_eq by assumption. f_equal.
    now apply map_rotate_about_id.
  - rewrite rotation_matrix_linear by assumption. f_equal.
    rewrite <- (map_id P) at 2. now apply map_ext.
Qed.

Lemma rotation_matrix_identity_witness :
  lone_point <> [] /\ rotation_matrix lone_point identity3 true = Ok lone_point.
Proof.
  split; [discriminate|]. apply (rotation_matrix_identity lone_point true). discriminate.
Defined.

(** X10. With [center=True] and a matrix that preserves norms the kernel
    returns one point for each point of the input and keeps the distance
    of any two points (over the reals), although its center is not the
    centroid. *)
Theorem rotation_matrix_rigid (P : ndarray) (m : mat3) :
  P <> [] -> isometry m ->
  exists Q,
    rotation_matrix P m true = Ok Q
    /\ length Q = length P
    /\ forall i j p q,
         nth_error P i = Some p -> nth_error P j = Some q ->
         exists p' q',
           nth_error Q i = Some p' /\ nth_error Q j = Some q'
           /\ dist p' q' = dist p q.
Proof.
  intros HP Hm. eexists. split; [apply rotation_matrix_eq, HP|].
  destruct (rows_rigid m (np.mean P, np.mean P, np.mean P) P Hm) as (Hl & Hd & _).
  split; assumption.
Qed.

Lemma quarter_turn_z_isometry : isometry quarter_turn_z.
Proof.
  intros [[x y] z]. cbv [quarter_turn_z norm2 mat_vec np.vdot vx vy vz fst snd]. ring.
Qed.

Lemma rotation_matrix_rigid_witness :
  triangle <> [] /\ isometry quarter_turn_z
  /\ exists Q,
       rotation_matrix triangle quarter_turn_z true = Ok Q
       /\ length Q = length triangle
       /\ forall i j p q,
            nth_error triangle i = Some p -> nth_error triangle j = Some q ->
            exists p' q',
              nth_error Q i = Some p' /\ nth_error Q j = Some q'
              /\ dist p' q' = dist p q.
Proof.
  split; [discriminate|]. split; [exact quarter_turn_z_isometry|].
  apply (rotation_matrix_rigid triangle quarter_turn_z);
    [discriminate | exact quarter_turn_z_isometry].
Defined.

Lemma Rsum_ravel (P : ndarray) :
  Rsum (np.ravel P) = Rsum (map vx P) + Rsum (map vy P) + Rsum (map vz P).
Proof.
  induction P as [|p P IH]; [cbn; ring|].
  cbn [np.ravel flat_map app map Rsum fold_right] in *.
  unfold Rsum, np.ravel in IH. rewrite IH. ring.
Qed.

Lemma length_ravel (P : ndarray) : length (np.ravel P) = (3 * length P)%nat.
Proof.
  induction P as [|p P IH]; [reflexivity|].
  cbn [np.ravel flat_map app length] in *. unfold np.ravel in IH. rewrite IH.
  rewrite PeanoNat.Nat.mul_succ_r, PeanoNat.Nat.add_comm. reflexivity.
Qed.

(** The scalar mean that the kernel takes as its center is the mean of the
    three coordinates of the centroid. *)
Lemma mean_of_centroid (P : ndarray) :
  P <> [] ->
  np.mean P = (vx (centroid P) + vy (centroid P) + vz (centroid P)) / 3.
Proof.
  intros HP. apply INR_length_neq_0 in HP.
  unfold np.mean. rewrite Rsum_ravel, length_ravel, mult_INR.
  cbv [centroid vx vy vz fst snd INR]. field. assumption.
Qed.

(** X11. Over the reals, with [center=True] the kernel rotates about the
    centroid when the centroid of the points has three equal coordinates,
    which the scalar mean then equals. *)
Theorem rotation_matrix_about_diagonal_centroid (P : ndarray) (m : mat3) (s : R) :
  P <> [] -> centroid P = (s, s, s) ->
  rotation_matrix P m true = Ok (map (rotate_about m (centroid P)) P).
Proof.
  intros HP Hc. rewrite rotation_matrix_eq by assumption.
  rewrite mean_of_centroid by assumption. rewrite Hc. cbv [vx vy vz fst snd].
  replace ((s + s + s) / 3) with s by field. reflexivity.
Qed.

Lemma rotation_matrix_about_diagonal_centroid_witness :
  triangle <> [] /\ centroid triangle = (0, 0, 0)
  /\ rotation_matrix triangle quarter_turn_z true
     = Ok (map (rotate_about quarter_turn_z (centroid triangle)) triangle).
Proof.
  split; [discriminate|]. split; [exact centroid_triangle|].
  apply (rotation_matrix_about_diagonal_centroid triangle quarter_turn_z 0);
    [discriminate | exact centroid_triangle].
Defined.

(** * Further properties of the read-transform-write functions *)

Section Store.

Context {attr : Type} {G : generator}.
Implicit Types (d : database attr) (kwargs : selection attr) (w : world attr G).


Lemma db_put_get d kwargs : db_put d kwargs (db_get d kwargs) = Some d.
Proof.
  unfold db_get. induction d as [|a d IH]; [reflexivity|].
  cbn [filter db_put]. destruct (kwargs (attrs a)); cbn [map]; rewrite IH;
    destruct a; reflexivity.
Qed.



Lemma translation_run w kwargs (vect : vec3) :
  db_get (store w) kwargs <> [] ->
  translation vect kwargs w
  = _update (map (fun p => vadd p vect) (db_get (store w) kwargs)) kwargs w.
Proof.
  intros Hne. unfold translation, bind, _get_xyz, lift, np.iadd.
  destruct (db_get (store w) kwargs); [contradiction | reflexivity].
Qed.

Lemma rot_axis_run w kwargs (axis : vec3) (angle : R) :
  db_get (store w) kwargs <> [] ->
  rot_axis axis angle kwargs w
  = _update (map (rotate_about (rodrigues axis angle)
                    (centroid (db_get (store w) kwargs)))
               (db_get (store w) kwargs)) kwargs w.
Proof.
  intros Hne. unfold rot_axis, bind, _get_xyz, lift.
  now rewrite rot_xyz_around_axis_eq by assumption.
Qed.

Lemma rot_euler_run w kwargs (alpha beta gamma : R) :
  db_get (store w) kwargs <> [] ->
  rot_euler alpha beta gamma kwargs w
  = _update (map (rotate_about (mat_mul (Rz gamma) (mat_mul (Ry beta) (Rx alpha)))
                    (centroid (db_get (store w) kwargs)))
               (db_get (store w) kwargs)) kwargs w.
Proof.
  intros Hne. unfold rot_euler, bind, _get_xyz, lift.
  now rewrite _rotation_euler_eq by assumption.
Qed.

(** X12. [translation] on a selection with at least one row adds the vector to
    every selected row: as many rows are written as were read, in the order
    read; the other rows and the generator are untouched. *)
Theorem translation_writes_back w kwargs (vect : vec3) :
  db_get (store w) kwargs <> [] ->
  exists w',
    translation vect kwargs w = (Ok tt, w')
    /\ committed w kwargs (map (fun p => vadd p vect) (db_get (store w) kwargs)) w'.
Proof.
  intros Hne. rewrite translation_run by assumption.
  apply _update_commits. now rewrite length_map.
Qed.

(** X13. [rot_axis] on a selection with at least one row turns every selected
    row about the centroid of the selected rows, by the Rodrigues matrix;
    the other rows and the generator are untouched. *)
Theorem rot_axis_writes_back w kwargs (axis : vec3) (angle : R) :
  db_get (store w) kwargs <> [] ->
  exists w',
    rot_axis axis angle kwargs w = (Ok tt, w')
    /\ committed w kwargs
         (map (rotate_about (rodrigues axis angle)
                 (centroid (db_get (store w) kwargs)))
            (db_get (store w) kwargs)) w'.
Proof.
  intros Hne. rewrite rot_axis_run by assumption.
  apply _update_commits. now rewrite length_map.
Qed.

(** X14. [rot_euler] on a selection with at least one row turns every selected
    row about the centroid of the selected rows, by [Rz . Ry . Rx]; the
    other rows and the generator are untouched. *)
Theorem rot_euler_writes_back w kwargs (alpha beta gamma : R) :
  db_get (store w) kwargs <> [] ->
  exists w',
    rot_euler alpha beta gamma kwargs w = (Ok tt, w')
    /\ committed w kwargs
         (map (rotate_about (mat_mul (Rz gamma) (mat_mul (Ry beta) (Rx alpha)))
                 (centroid (db_get (store w) kwargs)))
            (db_get (store w) kwargs)) w'.
Proof.
  intros Hne. rewrite rot_euler_run by assumption.
  apply _update_commits. now rewrite length_map.
Qed.

(** X15. [translation] on a selection that matches no row raises [ValueError]
    at the in-place sum and writes nothing. *)
Theorem translation_empty_selection w kwargs (vect : vec3) :
  db_get (store w) kwargs = [] ->
  translation vect kwargs w = (Raise ValueError, w).
Proof. apply translation_on_empty. Qed.


(** X17. The translation by the zero vector leaves the world as it was. *)
Theorem translation_zero w kwargs :
  db_get (store w) kwargs <> [] ->
  translation (0, 0, 0) kwargs w = (Ok tt, w).
Proof.
  intros Hne. rewrite translation_run by assumption.
  rewrite (map_ext _ (fun p => p)) by (intros [[x y] z]; vec_ring).
  rewrite map_id. unfold _update. rewrite db_put_get. now destruct w.
Qed.



(** X20. The sampler never writes to the database, and after a call with a seed
    that numpy accepts the generator is in a state that depends on the seed
    alone. *)
Theorem get_rot_axis_angle_state (seed : option Z) (s : Z) w (w' : world attr G) :
  store (snd (get_rot_axis_angle seed w)) = store w
  /\ (gen_seed G s <> None ->
      rng (snd (get_rot_axis_angle (Some s) w))
      = rng (snd (get_rot_axis_angle (Some s) w'))).
Proof.
  rewrite !get_rot_axis_angle_run. split.
  - destruct seed as [s0|]; [destruct (gen_seed G s0)|]; reflexivity.
  - destruct (gen_seed G s); [reflexivity | contradiction].
Qed.

End Store.

(** ** The functions at the structure of two chains *)

Lemma chain_A_selected : db_get (store two_chains_world) (chain "A") <> [].
Proof. change (db_get (store two_chains_world) (chain "A")) with [(1, 2, 3)]. discriminate. Qed.

Lemma chain_C_empty : db_get (store two_chains_world) (chain "C") = [].
Proof. reflexivity. Qed.

Lemma translation_writes_back_witness :
  db_get (store two_chains_world) (chain "A") <> []
  /\ exists w',
       translation (1, 1, 1) (chain "A") two_chains_world = (Ok tt, w')
       /\ committed two_chains_world (chain "A")
            (map (fun p => vadd p (1, 1, 1))
               (db_get (store two_chains_world) (chain "A"))) w'.
Proof.
  split; [exact chain_A_selected|].
  apply (translation_writes_back two_chains_world (chain "A") (1, 1, 1)).
  exact chain_A_selected.
Defined.

Lemma two_rows_selected : db_get (store three_atoms_world) (chain "A") <> [].
Proof.
  change (db_get (store three_atoms_world) (chain "A")) with [(1, 2, 3); (3, 2, 1)].
  discriminate.
Qed.

Lemma rot_axis_writes_back_witness :
  db_get (store three_atoms_world) (chain "A") <> []
  /\ exists w',
       rot_axis (0, 0, 1) PI (chain "A") three_atoms_world = (Ok tt, w')
       /\ committed three_atoms_world (chain "A")
            (map (rotate_about (rodrigues (0, 0, 1) PI)
                    (centroid (db_get (store three_atoms_world) (chain "A"))))
               (db_get (store three_atoms_world) (chain "A"))) w'.
Proof.
  split; [exact two_rows_selected|].
  apply (rot_axis_writes_back three_atoms_world (chain "A") (0, 0, 1) PI).
  exact two_rows_selected.
Defined.

Lemma rot_euler_writes_back_witness :
  db_get (store three_atoms_world) (chain "A") <> []
  /\ exists w',
       rot_euler 1 2 3 (chain "A") three_atoms_world = (Ok tt, w')
       /\ committed three_atoms_world (chain "A")
            (map (rotate_about (mat_mul (Rz 3) (mat_mul (Ry 2) (Rx 1)))
                    (centroid (db_get (store three_atoms_world) (chain "A"))))
               (db_get (store three_atoms_world) (chain "A"))) w'.
Proof.
  split; [exact two_rows_selected|].
  apply (rot_euler_writes_back three_atoms_world (chain "A") 1 2 3).
  exact two_rows_selected.
Defined.

Lemma translation_empty_selection_witness :
  db_get (store two_chains_world) (chain "C") = []
  /\ translation (1, 1, 1) (chain "C") two_chains_world
     = (Raise ValueError, two_chains_world).
Proof.
  split; [reflexivity|].
  apply (translation_empty_selection two_chains_world (chain "C") (1, 1, 1)).
  reflexivity.
Defined.


Lemma translation_zero_witness :
  db_get (store two_chains_world) (chain "A") <> []
  /\ translation (0, 0, 0) (chain "A") two_chains_world = (Ok tt, two_chains_world).
Proof.
  split; [exact chain_A_selected|].
  apply (translation_zero two_chains_world (chain "A")). exact chain_A_selected.
Defined.




Lemma seed_42_accepted : gen_seed counter_gen 42 <> None.
Proof. discriminate. Qed.

Lemma get_rot_axis_angle_state_witness :
  gen_seed counter_gen 42 <> None
  /\ store (snd (get_rot_axis_angle (Some 42%Z) two_chains_world))
     = store two_chains_world
  /\ rng (snd (get_rot_axis_angle (Some 42%Z) two_chains_world))
     = rng (snd (get_rot_axis_angle (Some 42%Z)
                   (@Build_world string counter_gen [] 7%nat))).
Proof.
  split; [exact seed_42_accepted|].
  destruct (get_rot_axis_angle_state (Some 42%Z) 42 two_chains_world
              (@Build_world string counter_gen [] 7%nat)) as [H1 H2].
  split; [exact H1 | exact (H2 seed_42_accepted)].
Defined.
